(** * StepIndicator: the step-progress widget of [src/components/step-indicator.tsx]

    The component is a function of its two props, [steps : string[]] and
    [currentStep : number], to a JSX tree.  The tree is embedded as the
    inductive type [node]; the component and the callback it passes to
    [steps.map] are embedded as the functions [StepIndicator] and
    [renderStep].  [currentStep] ranges over the integers, array indices
    over the naturals. *)

From Stdlib Require Import QArith Qcanon Qround.
From stdpp Require Import base decidable numbers list strings.

(** ** The JSX tree *)

#[local] Set Warnings "-register-all".

(** Components imported by the file ([lucide-react]). *)
Inductive component := CheckIcon.

(** A JSX node: a host element with its tag, [key], [className] and
    children; a component element with its [className]; a string
    expression child ([{step}]); a number expression child
    ([{index + 1}]). *)
Inductive node :=
| Elem (tag : string) (key : option nat) (className : string)
       (children : list node)
| Comp (c : component) (className : string)
| Str (s : string)
| Num (n : Z).

Global Instance component_eq_dec : EqDecision component.
Proof. solve_decision. Defined.

(** ** The component *)

Definition marker_base : string :=
  "flex h-8 w-8 items-center justify-center rounded-full border-2 ".
Definition completed_class : string :=
  "border-primary bg-primary text-primary-foreground".
Definition current_class : string :=
  "border-primary bg-background text-primary".
Definition pending_class : string :=
  "border-muted bg-background".
Definition label_class : string := "mt-2 hidden text-xs sm:block".
Definition baseline_class : string :=
  "absolute left-0 top-1/2 h-0.5 w-full -translate-y-1/2 bg-muted".

Definition isCompleted (index : nat) (currentStep : Z) : bool :=
  (Z.of_nat index <? currentStep)%Z.

Definition isCurrent (index : nat) (currentStep : Z) : bool :=
  (Z.of_nat index =? currentStep)%Z.

(** The arrow function given to [steps.map]: one [<li>] per step. *)
Definition renderStep (currentStep : Z) (index : nat) (step : string) : node :=
  Elem "li" (Some index) "flex flex-col items-center"
    [ Elem "div" None
        (marker_base +:+
           (if isCompleted index currentStep then completed_class
            else if isCurrent index currentStep then current_class
            else pending_class))
        [ if isCompleted index currentStep
          then Comp CheckIcon "h-4 w-4"
          else Elem "span" None "text-sm font-medium"
                 [Num (Z.of_nat index + 1)] ];
      Elem "span" None label_class [Str step] ].

Definition StepIndicator (steps : list string) (currentStep : Z) : node :=
  Elem "div" None "relative"
    [ Elem "div" None baseline_class [];
      Elem "ol" None "relative z-10 flex w-full justify-between"
        (imap (renderStep currentStep) steps) ].

(** ** Reading a rendered tree *)

Definition tag (n : node) : option string :=
  match n with Elem t _ _ _ => Some t | _ => None end.

Definition key (n : node) : option nat :=
  match n with Elem _ k _ _ => k | _ => None end.

Definition className (n : node) : string :=
  match n with
  | Elem _ _ c _ | Comp _ c => c
  | _ => ""
  end.

Definition children (n : node) : list node :=
  match n with Elem _ _ _ cs => cs | _ => [] end.

(** The baseline is the first child of the root, the list the second. *)
Definition baseline (t : node) : option node := children t !! 0%nat.

Definition step_list (t : node) : option node := children t !! 1%nat.

(** The list items of the output, in document order. *)
Definition items (t : node) : list node :=
  from_option children [] (step_list t).

(** Inside an item: the circular marker, then the label under it. *)
Definition marker (li : node) : option node := children li !! 0%nat.

Definition label (li : node) : option node := children li !! 1%nat.

(** The markers of the output, in document order. *)
Definition markers (t : node) : list node := omap marker (items t).

(** A class is on an element when it is one of the space-separated
    words of its [className]. *)
Definition has_class (c : string) (n : node) : Prop :=
  c ∈ String.words (className n).

Global Instance has_class_dec c n : Decision (has_class c n).
Proof. unfold has_class. apply _. Defined.

(** The three states of a step. *)
Inductive StepState := Completed | Current | Pending.

Global Instance StepState_eq_dec : EqDecision StepState.
Proof. solve_decision. Defined.

(** The state a marker shows, read off its variant classes. *)
Definition marker_state (m : node) : option StepState :=
  if decide (className m = marker_base +:+ completed_class) then Some Completed
  else if decide (className m = marker_base +:+ current_class) then Some Current
  else if decide (className m = marker_base +:+ pending_class) then Some Pending
  else None.

(** What a marker displays. *)
Inductive Glyph := Checkmark | Number (n : Z).

Definition marker_glyph (m : node) : option Glyph :=
  match children m with
  | [Comp CheckIcon _] => Some Checkmark
  | [Elem _ _ _ [Num n]] => Some (Number n)
  | _ => None
  end.

(** The classification in the words of the specification (data model,
    derived per-step state): Completed when [i < currentStep], Current
    when [i = currentStep], Pending when [i > currentStep].  The source
    has no such value: it has the flags [isCompleted] and [isCurrent]
    and two conditionals over them; [spec_state_flags] and
    [marker_state_step_marker] relate the two. *)
Definition spec_state (i : nat) (c : Z) : StepState :=
  if decide (Z.of_nat i < c)%Z then Completed
  else if decide (Z.of_nat i = c) then Current
  else Pending.

(** The states shown by the markers of the output, in order. *)
Definition states (t : node) : list (option StepState) :=
  marker_state <$> markers t.

(** How many markers of the output show state [s]. *)
Definition count_state (s : StepState) (t : node) : nat :=
  length (filter (λ m, marker_state m = Some s) (markers t)).

(** The text of the label of an item. *)
Definition label_text (li : node) : option string :=
  match label li with
  | Some (Elem _ _ _ [Str s]) => Some s
  | _ => None
  end.

(** A tree with the text of every string child blanked: what is left
    is everything a render shows besides its label texts. *)
Fixpoint erase_text (n : node) : node :=
  match n with
  | Elem t k c cs => Elem t k c (erase_text <$> cs)
  | Str _ => Str ""
  | Comp _ _ | Num _ => n
  end.



(** ** Proof devices: the two children [renderStep] gives an item *)

(** The marker [renderStep] puts in the item of index [i]. *)
Definition step_marker (c : Z) (i : nat) : node :=
  Elem "div" None
    (marker_base +:+
       (if isCompleted i c then completed_class
        else if isCurrent i c then current_class
        else pending_class))
    [ if isCompleted i c
      then Comp CheckIcon "h-4 w-4"
      else Elem "span" None "text-sm font-medium" [Num (Z.of_nat i + 1)] ].

(** The label [renderStep] puts under the marker of a step. *)
Definition step_label (step : string) : node :=
  Elem "span" None label_class [Str step].

(** ** Further readings of a rendered tree *)

(** The glyphs shown by the markers of the output, in order. *)
Definition glyphs (t : node) : list (option Glyph) :=
  marker_glyph <$> markers t.

(** [currentStep] cut to the interval from [-1] to the number of steps:
    one value below every index, one value above every index. *)
Definition clamp_step (n : nat) (c : Z) : Z :=
  Z.max (-1) (Z.min c (Z.of_nat n)).

(** ** The component over every value of type [number]

    The prop [currentStep] has type [number].  Besides the integers a
    number can be a fraction, an infinity or [NaN]; every finite number
    is a rational.  The two comparisons of the callback have an array
    index on the left: against [NaN] both are false, against an
    infinity [<] is decided by its sign and [===] is false, against a
    finite number they are the comparisons of rationals. *)
Inductive number :=
| NaN
| NegInfinity
| Finite (q : Qc)
| PosInfinity.

(** [index < currentStep] *)
Definition index_lt (index : nat) (currentStep : number) : bool :=
  match currentStep with
  | NaN | NegInfinity => false
  | Finite q => bool_decide (Qc_of_Z (Z.of_nat index) < q)%Qc
  | PosInfinity => true
  end.

(** [index === currentStep] *)
Definition index_eq (index : nat) (currentStep : number) : bool :=
  match currentStep with
  | Finite q => bool_decide (Qc_of_Z (Z.of_nat index) = q)
  | NaN | NegInfinity | PosInfinity => false
  end.

(** The callback given to [steps.map], for any number. *)
Definition renderStep_number (currentStep : number) (index : nat)
    (step : string) : node :=
  Elem "li" (Some index) "flex flex-col items-center"
    [ Elem "div" None
        (marker_base +:+
           (if index_lt index currentStep then completed_class
            else if index_eq index currentStep then current_class
            else pending_class))
        [ if index_lt index currentStep
          then Comp CheckIcon "h-4 w-4"
          else Elem "span" None "text-sm font-medium"
                 [Num (Z.of_nat index + 1)] ];
      Elem "span" None label_class [Str step] ].

(** The component, for any number. *)
Definition StepIndicator_number (steps : list string) (currentStep : number)
    : node :=
  Elem "div" None "relative"
    [ Elem "div" None baseline_class [];
      Elem "ol" None "relative z-10 flex w-full justify-between"
        (imap (renderStep_number currentStep) steps) ].

(** The state the two comparisons give the marker of index [i]. *)
Definition number_state (i : nat) (x : number) : StepState :=
  if index_lt i x then Completed
  else if index_eq i x then Current
  else Pending.

(** The marker [renderStep_number] puts in the item of index [i]. *)
Definition step_marker_number (x : number) (i : nat) : node :=
  Elem "div" None
    (marker_base +:+
       (if index_lt i x then completed_class
        else if index_eq i x then current_class
        else pending_class))
    [ if index_lt i x
      then Comp CheckIcon "h-4 w-4"
      else Elem "span" None "text-sm font-medium" [Num (Z.of_nat i + 1)] ].

(** ** Basic facts about the rendered list *)

Lemma renderStep_children c i step :
  children (renderStep c i step) = [step_marker c i; step_label step].
Proof. reflexivity. Qed.

Lemma marker_renderStep c i step :
  marker (renderStep c i step) = Some (step_marker c i).
Proof. reflexivity. Qed.

Lemma items_StepIndicator steps c :
  items (StepIndicator steps c) = imap (renderStep c) steps.
Proof. reflexivity. Qed.

Lemma omap_imap {A B C} (g : B → option C) (f : nat → A → B)
    (h : nat → A → C) (l : list A) :
  (∀ i x, g (f i x) = Some (h i x)) → omap g (imap f l) = imap h l.
Proof.
  revert f h. induction l as [|x l IH]; intros f h Hgf; [done|].
  cbn [imap omap list_omap]. rewrite Hgf. f_equal.
  apply IH. intros i y. apply Hgf.
Qed.

Lemma markers_StepIndicator steps c :
  markers (StepIndicator steps c) = imap (λ i _, step_marker c i) steps.
Proof.
  unfold markers. rewrite items_StepIndicator.
  apply omap_imap. intros i x. apply marker_renderStep.
Qed.

Lemma markers_snoc steps step c :
  markers (StepIndicator (steps ++ [step]) c)
  = markers (StepIndicator steps c) ++ [step_marker c (length steps)].
Proof.
  rewrite !markers_StepIndicator, imap_app. cbn. by rewrite Nat.add_0_r.
Qed.

Lemma length_markers steps c :
  length (markers (StepIndicator steps c)) = length steps.
Proof. by rewrite markers_StepIndicator, length_imap. Qed.

Lemma lookup_markers steps c i :
  i < length steps →
  markers (StepIndicator steps c) !! i = Some (step_marker c i).
Proof.
  intros Hi. rewrite markers_StepIndicator, list_lookup_imap.
  destruct (lookup_lt_is_Some_2 steps i Hi) as [x ->]. done.
Qed.

(** The two flags of the callback decide the state the marker shows. *)
Lemma marker_state_step_marker c i :
  marker_state (step_marker c i) = Some (spec_state i c).
Proof.
  unfold spec_state, step_marker, isCompleted, isCurrent.
  destruct (Z.ltb_spec (Z.of_nat i) c); [by rewrite decide_True|].
  rewrite decide_False by lia.
  destruct (Z.eqb_spec (Z.of_nat i) c); [by rewrite decide_True|].
  by rewrite decide_False.
Qed.

Lemma marker_glyph_step_marker c i :
  marker_glyph (step_marker c i)
  = Some (if isCompleted i c then Checkmark else Number (Z.of_nat i + 1)).
Proof. unfold step_marker. by destruct (isCompleted i c). Qed.

Lemma count_state_snoc s steps step c :
  count_state s (StepIndicator (steps ++ [step]) c)
  = count_state s (StepIndicator steps c)
    + (if decide (spec_state (length steps) c = s) then 1 else 0).
Proof.
  unfold count_state. rewrite markers_snoc, filter_app, length_app.
  f_equal. rewrite (filter_singleton _ _ []), marker_state_step_marker.
  destruct (decide (spec_state (length steps) c = s)) as [->|Hne].
  - by rewrite decide_True.
  - rewrite decide_False; [done | congruence].
Qed.

Lemma lookup_states steps c i :
  i < length steps →
  states (StepIndicator steps c) !! i = Some (Some (spec_state i c)).
Proof.
  intros Hi. unfold states.
  by rewrite list_lookup_fmap, lookup_markers, <- marker_state_step_marker.
Qed.

Lemma length_states steps c :
  length (states (StepIndicator steps c)) = length steps.
Proof. unfold states. by rewrite length_fmap, length_markers. Qed.

Lemma states_saturated steps c s :
  (∀ i, i < length steps → spec_state i c = s) →
  states (StepIndicator steps c) = replicate (length steps) (Some s).
Proof.
  intros Hs. apply list_eq. intros i.
  destruct (decide (i < length steps)) as [Hi|Hi].
  - by rewrite lookup_states, lookup_replicate_2, Hs.
  - rewrite (lookup_ge_None_2 (states _)) by (rewrite length_states; lia).
    symmetry. apply lookup_replicate_None. lia.
Qed.

(** ** The classification *)

(** C1: the state of the marker at each index [i] of [steps] depends on
    [i] and [currentStep] alone: Completed when [i < currentStep], Current
    when [i = currentStep], Pending when [i > currentStep]; with steps
    A, B, C and [currentStep = 1] the states are Completed, Current,
    Pending. *)
Theorem state_of_each_index :
  (∀ (steps : list string) (currentStep : Z) (i : nat),
     i < length steps →
     ∃ m, markers (StepIndicator steps currentStep) !! i = Some m ∧
          ((Z.of_nat i < currentStep)%Z → marker_state m = Some Completed) ∧
          (Z.of_nat i = currentStep → marker_state m = Some Current) ∧
          ((Z.of_nat i > currentStep)%Z → marker_state m = Some Pending) ∧
          (∀ steps' : list string, i < length steps' →
             markers (StepIndicator steps' currentStep) !! i = Some m)) ∧
  states (StepIndicator ["A"; "B"; "C"] 1)
  = [Some Completed; Some Current; Some Pending].
Proof.
  split; [|reflexivity].
  intros steps c i Hi. exists (step_marker c i).
  rewrite marker_state_step_marker. unfold spec_state.
  split_and!.
  - by apply lookup_markers.
  - intros. by rewrite decide_True.
  - intros. rewrite decide_False by lia. by rewrite decide_True.
  - intros. by rewrite !decide_False by lia.
  - intros. by apply lookup_markers.
Qed.

Lemma state_of_each_index_witness :
  ∃ m, markers (StepIndicator ["A"; "B"; "C"] 1) !! 2%nat = Some m ∧
       marker_state m = Some Pending.
Proof.
  destruct (proj1 state_of_each_index ["A"; "B"; "C"] 1%Z 2%nat)
    as (m & Hm & _ & _ & Hpending & _).
  - simpl. lia.
  - exists m. split; [exact Hm | apply Hpending; lia].
Defined.

(** C2: with [N] steps and [currentStep = c], exactly [max 0 (min c N)]
    markers are Completed, at most one is Current, and all the others
    are Pending. *)
Theorem state_counts (steps : list string) (c : Z) :
  Z.of_nat (count_state Completed (StepIndicator steps c))
  = Z.max 0 (Z.min c (Z.of_nat (length steps))) ∧
  count_state Current (StepIndicator steps c) ≤ 1 ∧
  count_state Completed (StepIndicator steps c)
  + count_state Current (StepIndicator steps c)
  + count_state Pending (StepIndicator steps c) = length steps ∧
  Forall (λ m, marker_state m ≠ Some Completed →
               marker_state m ≠ Some Current →
               marker_state m = Some Pending)
    (markers (StepIndicator steps c)).
Proof.
  split_and!.
  - induction steps as [|step steps IH] using rev_ind; [cbn; lia|].
    rewrite count_state_snoc, length_app, Nat2Z.inj_add, IH.
    unfold spec_state. cbn [length].
    repeat case_decide; try congruence; lia.
  - assert (count_state Current (StepIndicator steps c)
            = if decide (0 ≤ c < Z.of_nat (length steps))%Z then 1 else 0)
      as ->; [|case_decide; lia].
    induction steps as [|step steps IH] using rev_ind.
    { cbn. case_decide; [lia|done]. }
    rewrite count_state_snoc, length_app, IH.
    unfold spec_state. cbn [length].
    repeat case_decide; try congruence; lia.
  - induction steps as [|step steps IH] using rev_ind; [done|].
    rewrite !count_state_snoc, length_app. cbn [length].
    destruct (spec_state (length steps) c);
      repeat case_decide; try congruence; lia.
  - apply Forall_lookup. intros i m Him.
    assert (i < length steps) as Hi.
    { rewrite <- (length_markers steps c). by eapply lookup_lt_Some. }
    rewrite lookup_markers in Him by done. injection Him as <-.
    rewrite marker_state_step_marker.
    destruct (spec_state i c); congruence.
Qed.

(** C3: an out-of-range [currentStep] saturates the classification of a
    non-empty list: every marker is Pending when it is negative, every
    marker is Completed when it is at least [steps.length]; so for steps
    A, B, C, three Pending markers at [-1] and three Completed at [3]. *)
Theorem out_of_range_saturates :
  (∀ (steps : list string) (currentStep : Z),
     steps ≠ [] →
     ((currentStep < 0)%Z →
        states (StepIndicator steps currentStep)
        = replicate (length steps) (Some Pending)) ∧
     ((currentStep >= Z.of_nat (length steps))%Z →
        states (StepIndicator steps currentStep)
        = replicate (length steps) (Some Completed))) ∧
  states (StepIndicator ["A"; "B"; "C"] (-1))
  = [Some Pending; Some Pending; Some Pending] ∧
  states (StepIndicator ["A"; "B"; "C"] 3)
  = [Some Completed; Some Completed; Some Completed].
Proof.
  split; [|split; reflexivity].
  intros steps c _. split; intros Hc; apply states_saturated; intros i Hi;
    unfold spec_state.
  - by rewrite !decide_False by lia.
  - by rewrite decide_True by lia.
Qed.

Lemma out_of_range_saturates_witness :
  states (StepIndicator ["A"; "B"; "C"] (-1))
  = replicate (length ["A"; "B"; "C"]) (Some Pending) ∧
  states (StepIndicator ["A"; "B"; "C"] 3)
  = replicate (length ["A"; "B"; "C"]) (Some Completed).
Proof.
  split.
  - apply (proj1 out_of_range_saturates ["A"; "B"; "C"] (-1)%Z); [done|lia].
  - apply (proj1 out_of_range_saturates ["A"; "B"; "C"] 3%Z); [done|simpl; lia].
Defined.

(** ** Shape of the output *)

Lemma spec_state_flags c i :
  spec_state i c
  = if isCompleted i c then Completed
    else if isCurrent i c then Current else Pending.
Proof.
  unfold spec_state, isCompleted, isCurrent.
  destruct (Z.ltb_spec (Z.of_nat i) c); [by rewrite decide_True|].
  rewrite decide_False by lia.
  destruct (Z.eqb_spec (Z.of_nat i) c); [by rewrite decide_True|].
  by rewrite decide_False.
Qed.

Lemma keys_StepIndicator steps c :
  key <$> items (StepIndicator steps c) = Some <$> seq 0 (length steps).
Proof.
  rewrite items_StepIndicator, fmap_imap.
  apply (imap_seq_0 steps Some).
Qed.

Lemma label_texts_StepIndicator steps c :
  omap label_text (items (StepIndicator steps c)) = steps.
Proof.
  rewrite items_StepIndicator.
  rewrite (omap_imap label_text (renderStep c) (λ _ step, step)) by done.
  induction steps as [|step steps IH] using rev_ind; [done|].
  rewrite imap_app, IH. done.
Qed.



(** C5: the output has exactly [steps.length] markers, one per entry of
    [steps] and in the order of [steps]: the item at each index is the
    one built from the step at that index, the labels read in order are
    [steps], the keys are the indices in order; an empty [steps] gives
    no marker, whatever [currentStep] is. *)
Theorem one_marker_per_step (steps : list string) (currentStep : Z) :
  length (markers (StepIndicator steps currentStep)) = length steps ∧
  length (items (StepIndicator steps currentStep)) = length steps ∧
  (∀ i : nat,
     items (StepIndicator steps currentStep) !! i
     = renderStep currentStep i <$> steps !! i) ∧
  (∀ i : nat,
     markers (StepIndicator steps currentStep) !! i
     = (λ _, step_marker currentStep i) <$> steps !! i) ∧
  omap label_text (items (StepIndicator steps currentStep)) = steps ∧
  key <$> items (StepIndicator steps currentStep)
  = Some <$> seq 0 (length steps) ∧
  markers (StepIndicator [] currentStep) = [].
Proof.
  split_and!.
  - apply length_markers.
  - by rewrite items_StepIndicator, length_imap.
  - intros i. by rewrite items_StepIndicator, list_lookup_imap.
  - intros i. by rewrite markers_StepIndicator, list_lookup_imap.
  - apply label_texts_StepIndicator.
  - apply keys_StepIndicator.
  - done.
Qed.

(** C6: at every index [i], a Completed marker displays the checkmark
    and no number, a Current or Pending marker displays the number
    [i + 1] and no checkmark; Completed and Current markers carry the
    primary border class, Pending markers the muted border class. *)
Theorem marker_visuals (steps : list string) (currentStep : Z)
    (i : nat) (m : node) :
  markers (StepIndicator steps currentStep) !! i = Some m →
  marker_state m = Some (spec_state i currentStep) ∧
  match spec_state i currentStep with
  | Completed =>
      marker_glyph m = Some Checkmark ∧
      children m = [Comp CheckIcon "h-4 w-4"] ∧
      has_class "border-primary" m ∧ ¬ has_class "border-muted" m
  | Current =>
      marker_glyph m = Some (Number (Z.of_nat i + 1)) ∧
      children m
      = [Elem "span" None "text-sm font-medium" [Num (Z.of_nat i + 1)]] ∧
      has_class "border-primary" m ∧ ¬ has_class "border-muted" m
  | Pending =>
      marker_glyph m = Some (Number (Z.of_nat i + 1)) ∧
      children m
      = [Elem "span" None "text-sm font-medium" [Num (Z.of_nat i + 1)]] ∧
      has_class "border-muted" m ∧ ¬ has_class "border-primary" m
  end.
Proof.
  intros Hm.
  assert (i < length steps) as Hi.
  { rewrite <- (length_markers steps currentStep). by eapply lookup_lt_Some. }
  rewrite lookup_markers in Hm by done. injection Hm as <-.
  split; [apply marker_state_step_marker|].
  rewrite spec_state_flags. unfold step_marker.
  destruct (isCompleted i currentStep), (isCurrent i currentStep);
    split_and!; try done;
    try (apply (bool_decide_unpack _); by vm_compute);
    apply (bool_decide_eq_false_1 _); by vm_compute.
Qed.

Lemma marker_visuals_witness :
  marker_state (step_marker 1 0) = Some (spec_state 0 1) ∧
  marker_glyph (step_marker 1 0) = Some Checkmark ∧
  children (step_marker 1 0) = [Comp CheckIcon "h-4 w-4"] ∧
  has_class "border-primary" (step_marker 1 0) ∧
  ¬ has_class "border-muted" (step_marker 1 0).
Proof.
  apply (marker_visuals ["A"; "B"; "C"] 1%Z 0%nat (step_marker 1 0)).
  reflexivity.
Defined.

(** ** Dependence on the inputs *)

Lemma erase_text_renderStep c i step :
  erase_text (renderStep c i step) = renderStep c i "".
Proof. unfold renderStep. cbn. by destruct (isCompleted i c). Qed.

Lemma imap_replicate {A B} (f : nat → A → B) (n : nat) (x : A) :
  imap f (replicate n x) = (λ i, f i x) <$> seq 0 n.
Proof.
  rewrite (imap_ext f (λ i _, f i x)).
  - by rewrite (imap_seq_0 _ (λ i, f i x)), length_replicate.
  - intros i y Hy. by apply lookup_replicate in Hy as [-> _].
Qed.

Lemma erase_text_StepIndicator steps c :
  erase_text (StepIndicator steps c)
  = StepIndicator (replicate (length steps) "") c.
Proof.
  unfold StepIndicator. cbn. do 3 f_equal.
  rewrite fmap_imap, imap_replicate.
  rewrite (imap_ext _ (λ i _, renderStep c i "") steps)
    by (intros; apply erase_text_renderStep).
  by rewrite (imap_seq_0 steps (λ i, renderStep c i "")).
Qed.

(** C8: the markers do not depend on the label strings: for two lists
    of steps of the same length and the same [currentStep], the markers
    (state, glyph and classes) are the same at every index, and the two
    trees differ in the label texts only. *)
Theorem visuals_independent_of_labels (steps steps' : list string)
    (currentStep : Z) :
  length steps = length steps' →
  markers (StepIndicator steps currentStep)
  = markers (StepIndicator steps' currentStep) ∧
  states (StepIndicator steps currentStep)
  = states (StepIndicator steps' currentStep) ∧
  marker_glyph <$> markers (StepIndicator steps currentStep)
  = marker_glyph <$> markers (StepIndicator steps' currentStep) ∧
  className <$> markers (StepIndicator steps currentStep)
  = className <$> markers (StepIndicator steps' currentStep) ∧
  erase_text (StepIndicator steps currentStep)
  = erase_text (StepIndicator steps' currentStep).
Proof.
  intros Hlen.
  assert (markers (StepIndicator steps currentStep)
          = markers (StepIndicator steps' currentStep)) as Hm.
  { rewrite !markers_StepIndicator.
    rewrite (imap_seq_0 steps (step_marker currentStep)).
    rewrite (imap_seq_0 steps' (step_marker currentStep)).
    by rewrite Hlen. }
  unfold states. rewrite Hm, !erase_text_StepIndicator, Hlen. done.
Qed.

Lemma visuals_independent_of_labels_witness :
  markers (StepIndicator ["A"; "B"; "C"] 1)
  = markers (StepIndicator ["Datos"; "Pago"; "Listo"] 1) ∧
  states (StepIndicator ["A"; "B"; "C"] 1)
  = states (StepIndicator ["Datos"; "Pago"; "Listo"] 1) ∧
  marker_glyph <$> markers (StepIndicator ["A"; "B"; "C"] 1)
  = marker_glyph <$> markers (StepIndicator ["Datos"; "Pago"; "Listo"] 1) ∧
  className <$> markers (StepIndicator ["A"; "B"; "C"] 1)
  = className <$> markers (StepIndicator ["Datos"; "Pago"; "Listo"] 1) ∧
  erase_text (StepIndicator ["A"; "B"; "C"] 1)
  = erase_text (StepIndicator ["Datos"; "Pago"; "Listo"] 1).
Proof.
  apply (visuals_independent_of_labels
           ["A"; "B"; "C"] ["Datos"; "Pago"; "Listo"] 1%Z).
  reflexivity.
Defined.

(** ** Baseline and labels *)

(** C9: the baseline is rendered whatever the inputs: the root always
    holds the full-width baseline line followed by the list; with
    [steps = []] the output is the root with the baseline and an empty
    list, not an empty tree. *)
Theorem baseline_always_rendered (steps : list string) (currentStep : Z) :
  baseline (StepIndicator steps currentStep)
  = Some (Elem "div" None baseline_class []) ∧
  has_class "w-full" (Elem "div" None baseline_class []) ∧
  children (StepIndicator steps currentStep)
  = [ Elem "div" None baseline_class [];
      Elem "ol" None "relative z-10 flex w-full justify-between"
        (items (StepIndicator steps currentStep)) ] ∧
  StepIndicator [] currentStep
  = Elem "div" None "relative"
      [ Elem "div" None baseline_class [];
        Elem "ol" None "relative z-10 flex w-full justify-between" [] ] ∧
  children (StepIndicator [] currentStep) ≠ [].
Proof.
  split_and!; try done.
  apply (bool_decide_unpack _). by vm_compute.
Qed.

(** C10: at every index [i], whatever the state of the step, the item
    holds, right after its marker, a label element whose only child is
    the string [steps[i]]; the label is hidden on narrow viewports by
    the classes it carries ([hidden], [sm:block]), not by being left
    out. *)
Theorem label_always_present (steps : list string) (currentStep : Z)
    (i : nat) (step : string) :
  steps !! i = Some step →
  ∃ li m,
    items (StepIndicator steps currentStep) !! i = Some li ∧
    markers (StepIndicator steps currentStep) !! i = Some m ∧
    children li = [m; Elem "span" None label_class [Str step]] ∧
    label li = Some (Elem "span" None label_class [Str step]) ∧
    label_text li = Some step ∧
    has_class "hidden" (Elem "span" None label_class [Str step]) ∧
    has_class "sm:block" (Elem "span" None label_class [Str step]).
Proof.
  intros Hstep.
  exists (renderStep currentStep i step), (step_marker currentStep i).
  split_and!; try done.
  - by rewrite items_StepIndicator, list_lookup_imap, Hstep.
  - apply lookup_markers. by eapply lookup_lt_Some.
  - apply (bool_decide_unpack _). by vm_compute.
  - apply (bool_decide_unpack _). by vm_compute.
Qed.

Lemma label_always_present_witness :
  ∃ li m,
    items (StepIndicator ["A"; "B"; "C"] 3) !! 2%nat = Some li ∧
    markers (StepIndicator ["A"; "B"; "C"] 3) !! 2%nat = Some m ∧
    children li = [m; Elem "span" None label_class [Str "C"]] ∧
    label li = Some (Elem "span" None label_class [Str "C"]) ∧
    label_text li = Some "C" ∧
    has_class "hidden" (Elem "span" None label_class [Str "C"]) ∧
    has_class "sm:block" (Elem "span" None label_class [Str "C"]).
Proof.
  apply (label_always_present ["A"; "B"; "C"] 3%Z 2%nat "C").
  reflexivity.
Defined.

(** ** Layout of the states and glyphs along the list *)

Lemma length_glyphs steps c :
  length (glyphs (StepIndicator steps c)) = length steps.
Proof. unfold glyphs. by rewrite length_fmap, length_markers. Qed.

Lemma lookup_glyphs steps c i :
  i < length steps →
  glyphs (StepIndicator steps c) !! i
  = Some (Some (if isCompleted i c then Checkmark
                else Number (Z.of_nat i + 1))).
Proof.
  intros Hi. unfold glyphs.
  by rewrite list_lookup_fmap, lookup_markers, <- marker_glyph_step_marker.
Qed.

Lemma states_in_range steps c :
  (0 ≤ c < Z.of_nat (length steps))%Z →
  states (StepIndicator steps c)
  = replicate (Z.to_nat c) (Some Completed)
    ++ Some Current
    :: replicate (length steps - Z.to_nat c - 1) (Some Pending).
Proof.
  intros Hc. apply list_eq. intros i.
  destruct (decide (i < length steps)) as [Hi|Hi].
  - rewrite lookup_states by done. unfold spec_state.
    destruct (decide (i < Z.to_nat c)) as [Hlt|Hge].
    + rewrite lookup_app_l by (rewrite length_replicate; lia).
      rewrite lookup_replicate_2 by lia. by rewrite decide_True by lia.
    + rewrite lookup_app_r by (rewrite length_replicate; lia).
      rewrite length_replicate, decide_False by lia.
      destruct (decide (i = Z.to_nat c)) as [->|Hne].
      * rewrite Nat.sub_diag. by rewrite decide_True by lia.
      * rewrite decide_False by lia.
        rewrite lookup_cons_ne_0 by lia. by rewrite lookup_replicate_2 by lia.
  - rewrite (lookup_ge_None_2 (states _)) by (rewrite length_states; lia).
    symmetry. apply lookup_ge_None_2.
    rewrite length_app, length_cons, !length_replicate. lia.
Qed.

(** X1: along the list the states come in blocks: first the Completed
    markers, then the Current one when [currentStep] is an index of the
    list, then the Pending ones; no Pending or Current marker ever
    precedes a Completed one. *)
Theorem states_layout (steps : list string) (currentStep : Z) :
  states (StepIndicator steps currentStep)
  = replicate (Z.to_nat (Z.min currentStep (Z.of_nat (length steps))))
      (Some Completed)
    ++ (if decide (0 ≤ currentStep < Z.of_nat (length steps))%Z
        then [Some Current] else [])
    ++ replicate (length steps - Z.to_nat (currentStep + 1)) (Some Pending).
Proof.
  destruct (decide (0 ≤ currentStep < Z.of_nat (length steps))%Z)
    as [Hc|Hc].
  - rewrite states_in_range by done. cbn [app]. do 3 f_equal; lia.
  - destruct (decide (currentStep < 0)%Z) as [Hneg|Hpos].
    + rewrite (states_saturated steps currentStep Pending).
      * replace (Z.to_nat (Z.min _ _)) with 0%nat by lia. cbn [replicate app].
        f_equal. lia.
      * intros i Hi. unfold spec_state. by rewrite !decide_False by lia.
    + rewrite (states_saturated steps currentStep Completed).
      * replace (length steps - _)%nat with 0%nat by lia.
        cbn [replicate app]. rewrite app_nil_r. f_equal. lia.
      * intros i Hi. unfold spec_state. by rewrite decide_True by lia.
Qed.

(** X2: the glyphs along the list are checkmarks on the Completed
    markers followed by consecutive numbers on all the others: with [k]
    markers Completed out of [N], the numbers shown are [k + 1], ...,
    [N], each the one-based position of its marker. *)
Theorem glyphs_layout (steps : list string) (currentStep : Z) :
  glyphs (StepIndicator steps currentStep)
  = replicate (Z.to_nat (Z.min currentStep (Z.of_nat (length steps))))
      (Some Checkmark)
    ++ ((λ n, Some (Number n))
          <$> seqZ (Z.max 0 (Z.min currentStep (Z.of_nat (length steps))) + 1)
                (Z.of_nat (length steps)
                 - Z.max 0 (Z.min currentStep (Z.of_nat (length steps))))).
Proof.
  apply list_eq. intros i.
  destruct (decide (i < length steps)) as [Hi|Hi].
  - rewrite lookup_glyphs by done. unfold isCompleted.
    destruct (Z.ltb_spec (Z.of_nat i) currentStep).
    + rewrite lookup_app_l by (rewrite length_replicate; lia).
      by rewrite lookup_replicate_2 by lia.
    + rewrite lookup_app_r by (rewrite length_replicate; lia).
      rewrite length_replicate, list_lookup_fmap.
      rewrite lookup_seqZ_lt by lia. cbn. do 3 f_equal. lia.
  - rewrite (lookup_ge_None_2 (glyphs _)) by (rewrite length_glyphs; lia).
    symmetry. apply lookup_ge_None_2.
    rewrite length_app, length_replicate, length_fmap, length_seqZ. lia.
Qed.

(** ** Moving [currentStep] *)

(** X3: moving [currentStep] from [c ≥ 0] to [c + 1] changes at most
    two markers: the one at index [c] becomes Completed and the one at
    index [c + 1] becomes Current; every other marker keeps its state
    (an index outside the list changes nothing). *)
Theorem advance_one_step (steps : list string) (c : Z) :
  (0 ≤ c)%Z →
  states (StepIndicator steps (c + 1))
  = <[Z.to_nat c := Some Completed]>
      (<[Z.to_nat (c + 1) := Some Current]>
         (states (StepIndicator steps c))).
Proof.
  intros Hc. apply list_eq. intros i.
  destruct (decide (i < length steps)) as [Hi|Hi].
  - rewrite lookup_states by done.
    destruct (decide (i = Z.to_nat c)) as [->|Hne].
    + rewrite list_lookup_insert_eq
        by (rewrite length_insert, length_states; lia).
      unfold spec_state. by rewrite decide_True by lia.
    + rewrite list_lookup_insert_ne by lia.
      destruct (decide (i = Z.to_nat (c + 1))) as [->|Hne'].
      * rewrite list_lookup_insert_eq by (rewrite length_states; lia).
        unfold spec_state. rewrite decide_False by lia.
        by rewrite decide_True by lia.
      * rewrite list_lookup_insert_ne by lia.
        rewrite lookup_states by done. unfold spec_state.
        repeat case_decide; try done; lia.
  - rewrite !lookup_ge_None_2; [done|..];
      rewrite ?length_insert, length_states; lia.
Qed.

Lemma advance_one_step_witness :
  states (StepIndicator ["A"; "B"; "C"] (1 + 1))
  = <[Z.to_nat 1 := Some Completed]>
      (<[Z.to_nat (1 + 1) := Some Current]>
         (states (StepIndicator ["A"; "B"; "C"] 1))).
Proof. apply (advance_one_step ["A"; "B"; "C"] 1%Z). lia. Defined.

(** X4: a larger [currentStep] never takes progress back: when
    [c ≤ c'], every marker Completed at [c] is Completed at [c'], and
    every marker Pending at [c'] is Pending at [c]. *)
Theorem progress_monotone (steps : list string) (c c' : Z) (i : nat) :
  (c ≤ c')%Z →
  (states (StepIndicator steps c) !! i = Some (Some Completed) →
   states (StepIndicator steps c') !! i = Some (Some Completed)) ∧
  (states (StepIndicator steps c') !! i = Some (Some Pending) →
   states (StepIndicator steps c) !! i = Some (Some Pending)).
Proof.
  intros Hcc'.
  destruct (decide (i < length steps)) as [Hi|Hi].
  - rewrite !lookup_states by done. unfold spec_state.
    split; intros Hs; repeat case_decide; try done; lia.
  - rewrite !(lookup_ge_None_2 (states _)) by (rewrite length_states; lia).
    done.
Qed.

Lemma progress_monotone_witness :
  states (StepIndicator ["A"; "B"; "C"] 2) !! 0%nat = Some (Some Completed) ∧
  states (StepIndicator ["A"; "B"; "C"] 0) !! 2%nat = Some (Some Pending).
Proof.
  split.
  - apply (proj1 (progress_monotone ["A"; "B"; "C"] 1%Z 2%Z 0%nat
                    ltac:(lia))).
    reflexivity.
  - apply (proj2 (progress_monotone ["A"; "B"; "C"] 0%Z 1%Z 2%nat
                    ltac:(lia))).
    reflexivity.
Defined.

(** X5: the Current marker gives [currentStep] back: a marker is Current
    exactly at the index equal to [currentStep], so there is one when
    and only when [0 ≤ currentStep < steps.length], and it then displays
    the number [currentStep + 1]. *)
Theorem current_marker_position (steps : list string) (currentStep : Z)
    (i : nat) :
  (states (StepIndicator steps currentStep) !! i = Some (Some Current)
   ↔ Z.of_nat i = currentStep ∧ i < length steps) ∧
  (states (StepIndicator steps currentStep) !! i = Some (Some Current) →
   glyphs (StepIndicator steps currentStep) !! i
   = Some (Some (Number (currentStep + 1)))).
Proof.
  assert (states (StepIndicator steps currentStep) !! i = Some (Some Current)
          ↔ Z.of_nat i = currentStep ∧ i < length steps) as Hiff.
  { destruct (decide (i < length steps)) as [Hi|Hi].
    - rewrite lookup_states by done. unfold spec_state. split.
      + intros Hs. repeat case_decide; done.
      + intros [Heq _]. rewrite decide_False by lia. by rewrite decide_True.
    - rewrite (lookup_ge_None_2 (states _)) by (rewrite length_states; lia).
      split; [done | lia]. }
  split; [done|]. intros [<- Hi]%Hiff.
  rewrite lookup_glyphs by done. unfold isCompleted.
  by rewrite Z.ltb_irrefl.
Qed.

Lemma current_marker_position_witness :
  glyphs (StepIndicator ["A"; "B"; "C"] 1) !! 1%nat
  = Some (Some (Number (1 + 1))).
Proof.
  apply (proj2 (current_marker_position ["A"; "B"; "C"] 1%Z 1%nat)).
  reflexivity.
Defined.

(** ** Changing the list of steps *)

Lemma spec_state_shift (n i : nat) (c : Z) :
  spec_state (n + i) c = spec_state i (c - Z.of_nat n).
Proof. unfold spec_state. repeat case_decide; try done; lia. Qed.

(** X6: appending steps leaves the items already there untouched, and
    the states of the appended steps are those of a render of the new
    steps alone with [currentStep] lowered by the number of steps
    before them. *)
Theorem append_steps (steps more : list string) (currentStep : Z) :
  take (length steps) (items (StepIndicator (steps ++ more) currentStep))
  = items (StepIndicator steps currentStep) ∧
  states (StepIndicator (steps ++ more) currentStep)
  = states (StepIndicator steps currentStep)
    ++ states (StepIndicator more (currentStep - Z.of_nat (length steps))).
Proof.
  split.
  - rewrite !items_StepIndicator, imap_app.
    apply take_app_length'. by rewrite length_imap.
  - apply list_eq. intros i.
    destruct (decide (i < length steps)) as [Hi|Hi].
    + rewrite lookup_app_l by (by rewrite length_states).
      rewrite !lookup_states; [done | done | rewrite length_app; lia].
    + rewrite lookup_app_r by (rewrite length_states; lia).
      rewrite length_states.
      destruct (decide (i - length steps < length more)) as [Hj|Hj].
      * rewrite !lookup_states by (rewrite ?length_app; lia).
        rewrite <- spec_state_shift. do 3 f_equal. lia.
      * rewrite !(lookup_ge_None_2 (states _));
          [done | rewrite length_states ..]; rewrite ?length_app; lia.
Qed.

(** X7: replacing the label at one index replaces the item at that
    index by the one built from the new label, and changes no other
    item and no marker. *)
Theorem relabel_one_step (steps : list string) (currentStep : Z)
    (i : nat) (step : string) :
  items (StepIndicator (<[i := step]> steps) currentStep)
  = <[i := renderStep currentStep i step]>
      (items (StepIndicator steps currentStep)) ∧
  markers (StepIndicator (<[i := step]> steps) currentStep)
  = markers (StepIndicator steps currentStep).
Proof.
  split.
  - rewrite !items_StepIndicator. apply list_eq. intros j.
    rewrite list_lookup_imap.
    destruct (decide (i = j)) as [<-|Hne].
    + destruct (decide (i < length steps)) as [Hi|Hi].
      * rewrite !list_lookup_insert_eq by (by rewrite ?length_imap). done.
      * rewrite !list_insert_ge by (rewrite ?length_imap; lia).
        by rewrite list_lookup_imap.
    + rewrite !list_lookup_insert_ne by done. by rewrite list_lookup_imap.
  - rewrite !markers_StepIndicator.
    rewrite (imap_seq_0 (<[i := step]> steps) (step_marker currentStep)).
    rewrite (imap_seq_0 steps (step_marker currentStep)).
    by rewrite length_insert.
Qed.

Lemma renderStep_clamp (n i : nat) (c : Z) (step : string) :
  i < n → renderStep (clamp_step n c) i step = renderStep c i step.
Proof.
  intros Hi. unfold renderStep, isCompleted, isCurrent, clamp_step.
  replace (Z.of_nat i <? Z.max (-1) (Z.min c (Z.of_nat n)))%Z
    with (Z.of_nat i <? c)%Z
    by (destruct (Z.ltb_spec (Z.of_nat i) c);
        destruct (Z.ltb_spec (Z.of_nat i) (Z.max (-1) (Z.min c (Z.of_nat n))));
        lia).
  replace (Z.of_nat i =? Z.max (-1) (Z.min c (Z.of_nat n)))%Z
    with (Z.of_nat i =? c)%Z
    by (destruct (Z.eqb_spec (Z.of_nat i) c);
        destruct (Z.eqb_spec (Z.of_nat i) (Z.max (-1) (Z.min c (Z.of_nat n))));
        lia).
  done.
Qed.

Lemma StepIndicator_clamp steps c :
  StepIndicator steps (clamp_step (length steps) c) = StepIndicator steps c.
Proof.
  unfold StepIndicator.
  rewrite (imap_ext (renderStep (clamp_step (length steps) c))
             (renderStep c) steps); [done|].
  intros i step Hi. apply renderStep_clamp. by eapply lookup_lt_Some.
Qed.

(** X8: two renders are the same tree exactly when the lists of steps
    are equal and, unless the list is empty, the two values of
    [currentStep] agree once cut to the interval from [-1] to
    [steps.length]: the tree gives the labels back, and [currentStep] up
    to saturation. *)
Theorem render_eq_iff (steps steps' : list string) (c c' : Z) :
  StepIndicator steps c = StepIndicator steps' c'
  ↔ steps = steps' ∧
    (steps = [] ∨ clamp_step (length steps) c = clamp_step (length steps) c').
Proof.
  split.
  - intros Heq.
    assert (steps = steps') as <-.
    { rewrite <- (label_texts_StepIndicator steps c).
      rewrite <- (label_texts_StepIndicator steps' c'). by rewrite Heq. }
    split; [done|].
    destruct steps as [|step0 steps]; [by left | right].
    set (l := step0 :: steps) in *.
    assert (0 < length l) as Hpos by (cbn; lia).
    assert (∀ i, i < length l → spec_state i c = spec_state i c') as Hs.
    { intros i Hi. pose proof (f_equal (λ t, states t !! i) Heq) as Hi'.
      cbn beta in Hi'. rewrite !lookup_states in Hi' by done. congruence. }
    pose proof (Hs 0%nat Hpos) as H0.
    assert ((0 ≤ c < Z.of_nat (length l))%Z → c = c') as Hin.
    { intros Hc. pose proof (Hs (Z.to_nat c) ltac:(lia)) as Hc'.
      unfold spec_state in Hc'. repeat case_decide; try done; lia. }
    assert ((0 ≤ c' < Z.of_nat (length l))%Z → c = c') as Hin'.
    { intros Hc. pose proof (Hs (Z.to_nat c') ltac:(lia)) as Hc'.
      unfold spec_state in Hc'. repeat case_decide; try done; lia. }
    unfold spec_state in H0. unfold clamp_step.
    repeat case_decide; try done; lia.
  - intros [<- [->|Hclamp]]; [done|].
    rewrite <- (StepIndicator_clamp steps c).
    rewrite <- (StepIndicator_clamp steps c'). by rewrite Hclamp.
Qed.

(** ** Values of [currentStep] that are not integers *)

Lemma index_lt_Z (i : nat) (c : Z) :
  index_lt i (Finite (Qc_of_Z c)) = isCompleted i c.
Proof.
  unfold index_lt, isCompleted.
  destruct (Z.ltb_spec (Z.of_nat i) c) as [Hlt|Hge].
  - apply bool_decide_eq_true_2. exact (proj1 (Z2Qc_inj_lt _ _) Hlt).
  - apply bool_decide_eq_false_2. intros Hlt.
    apply (proj2 (Z2Qc_inj_lt _ _)) in Hlt. lia.
Qed.

Lemma index_eq_Z (i : nat) (c : Z) :
  index_eq i (Finite (Qc_of_Z c)) = isCurrent i c.
Proof.
  unfold index_eq, isCurrent.
  destruct (Z.eqb_spec (Z.of_nat i) c) as [Heq|Hne].
  - apply bool_decide_eq_true_2. by rewrite Heq.
  - apply bool_decide_eq_false_2. by rewrite Z2Qc_inj_iff.
Qed.

Lemma renderStep_number_flags (x : number) (c : Z) (i : nat) (step : string) :
  index_lt i x = isCompleted i c → index_eq i x = isCurrent i c →
  renderStep_number x i step = renderStep c i step.
Proof. unfold renderStep_number, renderStep. by intros -> ->. Qed.

Lemma StepIndicator_number_flags (steps : list string) (x : number) (c : Z) :
  (∀ i, i < length steps →
        index_lt i x = isCompleted i c ∧ index_eq i x = isCurrent i c) →
  StepIndicator_number steps x = StepIndicator steps c.
Proof.
  intros Hflags. unfold StepIndicator_number, StepIndicator.
  rewrite (imap_ext (renderStep_number x) (renderStep c) steps); [done|].
  intros i step Hi. apply lookup_lt_Some in Hi.
  destruct (Hflags i Hi). by apply renderStep_number_flags.
Qed.

(** X9: on an integer the component over numbers is the component over
    integers, and the values that are no rational saturate: [NaN] and
    [-Infinity] render as [currentStep = -1] (every marker Pending),
    [+Infinity] renders as [currentStep = steps.length] (every marker
    Completed). *)
Theorem number_edge_values (steps : list string) :
  (∀ c : Z,
     StepIndicator_number steps (Finite (Qc_of_Z c)) = StepIndicator steps c) ∧
  StepIndicator_number steps NaN = StepIndicator steps (-1) ∧
  StepIndicator_number steps NegInfinity = StepIndicator steps (-1) ∧
  StepIndicator_number steps PosInfinity
  = StepIndicator steps (Z.of_nat (length steps)) ∧
  states (StepIndicator_number steps NaN)
  = replicate (length steps) (Some Pending) ∧
  states (StepIndicator_number steps PosInfinity)
  = replicate (length steps) (Some Completed).
Proof.
  assert (StepIndicator_number steps NaN = StepIndicator steps (-1)) as Hnan.
  { apply StepIndicator_number_flags. intros i Hi.
    unfold isCompleted, isCurrent. cbn [index_lt index_eq].
    split; symmetry; [apply Z.ltb_ge | apply Z.eqb_neq]; lia. }
  assert (StepIndicator_number steps PosInfinity
          = StepIndicator steps (Z.of_nat (length steps))) as Hinf.
  { apply StepIndicator_number_flags. intros i Hi.
    unfold isCompleted, isCurrent. cbn [index_lt index_eq].
    split; symmetry; [apply Z.ltb_lt | apply Z.eqb_neq]; lia. }
  split_and!.
  - intros c. apply StepIndicator_number_flags. intros i _.
    split; [apply index_lt_Z | apply index_eq_Z].
  - done.
  - apply StepIndicator_number_flags. intros i Hi.
    unfold isCompleted, isCurrent. cbn [index_lt index_eq].
    split; symmetry; [apply Z.ltb_ge | apply Z.eqb_neq]; lia.
  - done.
  - rewrite Hnan. apply states_saturated. intros i Hi.
    unfold spec_state. by rewrite !decide_False by lia.
  - rewrite Hinf. apply states_saturated. intros i Hi.
    unfold spec_state. by rewrite decide_True by lia.
Qed.

Lemma markers_StepIndicator_number steps x :
  markers (StepIndicator_number steps x)
  = imap (λ i _, step_marker_number x i) steps.
Proof.
  unfold markers, items, step_list, StepIndicator_number. cbn.
  by apply omap_imap.
Qed.

Lemma marker_state_step_marker_number x i :
  marker_state (step_marker_number x i) = Some (number_state i x).
Proof.
  unfold step_marker_number, number_state.
  by destruct (index_lt i x), (index_eq i x).
Qed.

Lemma length_states_number steps x :
  length (states (StepIndicator_number steps x)) = length steps.
Proof.
  unfold states.
  by rewrite length_fmap, markers_StepIndicator_number, length_imap.
Qed.

Lemma lookup_states_number steps x i :
  i < length steps →
  states (StepIndicator_number steps x) !! i
  = Some (Some (number_state i x)).
Proof.
  intros Hi. unfold states.
  rewrite list_lookup_fmap, markers_StepIndicator_number, list_lookup_imap.
  destruct (lookup_lt_is_Some_2 steps i Hi) as [step ->]. cbn.
  by rewrite marker_state_step_marker_number.
Qed.

Lemma index_lt_ceiling (i : nat) (q : Qc) :
  index_lt i (Finite q) = (Z.of_nat i <? Qceiling q)%Z.
Proof.
  unfold index_lt.
  destruct (Z.ltb_spec (Z.of_nat i) (Qceiling q)) as [Hlt|Hge].
  - apply bool_decide_eq_true_2. unfold Qclt. cbn [this Qc_of_Z].
    apply Qle_lt_trans with (inject_Z (Qceiling q - 1)).
    + rewrite <- Zle_Qle. lia.
    + apply Qceiling_lt.
  - apply bool_decide_eq_false_2. unfold Qclt. cbn [this Qc_of_Z].
    intros Hlt.
    assert (inject_Z (Z.of_nat i) < inject_Z (Qceiling q))%Q as Hlt'
      by (eapply Qlt_le_trans; [exact Hlt | apply Qle_ceiling]).
    rewrite <- Zlt_Qlt in Hlt'. lia.
Qed.

(** X10: with a fractional [currentStep] no marker is Current: the
    markers of index below it are Completed, all the others Pending, so
    the steps up to its ceiling count as done and none is shown as the
    active one. *)
Theorem fractional_step (steps : list string) (q : Qc) :
  (∀ z : Z, q ≠ Qc_of_Z z) →
  states (StepIndicator_number steps (Finite q))
  = replicate (Z.to_nat (Z.min (Qceiling q) (Z.of_nat (length steps))))
      (Some Completed)
    ++ replicate (length steps - Z.to_nat (Qceiling q)) (Some Pending).
Proof.
  intros Hfrac. apply list_eq. intros i.
  destruct (decide (i < length steps)) as [Hi|Hi].
  - rewrite lookup_states_number by done. unfold number_state.
    rewrite index_lt_ceiling.
    assert (index_eq i (Finite q) = false) as ->.
    { apply bool_decide_eq_false_2. intros Heq. by apply (Hfrac (Z.of_nat i)). }
    destruct (Z.ltb_spec (Z.of_nat i) (Qceiling q)).
    + rewrite lookup_app_l by (rewrite length_replicate; lia).
      by rewrite lookup_replicate_2 by lia.
    + rewrite lookup_app_r by (rewrite length_replicate; lia).
      by rewrite length_replicate, lookup_replicate_2 by lia.
  - rewrite (lookup_ge_None_2 (states _))
      by (rewrite length_states_number; lia).
    symmetry. apply lookup_ge_None_2.
    rewrite length_app, !length_replicate. lia.
Qed.

Lemma fractional_step_witness :
  states (StepIndicator_number ["A"; "B"; "C"] (Finite (Q2Qc (3 # 2))))
  = replicate
      (Z.to_nat (Z.min (Qceiling (Q2Qc (3 # 2)))
                   (Z.of_nat (length ["A"; "B"; "C"]))))
      (Some Completed)
    ++ replicate (length ["A"; "B"; "C"] - Z.to_nat (Qceiling (Q2Qc (3 # 2))))
         (Some Pending).
Proof.
  apply (fractional_step ["A"; "B"; "C"] (Q2Qc (3 # 2))).
  intros z Hz. apply (f_equal (λ x : Qc, Qden (this x))) in Hz.
  vm_compute in Hz. discriminate Hz.
Defined.

(** ** Fill and text colour of the markers *)

(** X11: among the markers of a render, the filled ones ([bg-primary])
    are exactly the Completed ones, the ones with primary text colour
    ([text-primary]) are exactly the Current one, and every other
    marker has the background fill ([bg-background]). *)
Theorem marker_fill (steps : list string) (currentStep : Z)
    (i : nat) (m : node) :
  markers (StepIndicator steps currentStep) !! i = Some m →
  (has_class "bg-primary" m ↔ (Z.of_nat i < currentStep)%Z) ∧
  (has_class "text-primary" m ↔ Z.of_nat i = currentStep) ∧
  (has_class "bg-background" m ↔ (currentStep ≤ Z.of_nat i)%Z).
Proof.
  intros Hm.
  assert (i < length steps) as Hi.
  { rewrite <- (length_markers steps currentStep). by eapply lookup_lt_Some. }
  rewrite lookup_markers in Hm by done. injection Hm as <-.
  unfold step_marker, isCompleted, isCurrent.
  destruct (Z.ltb_spec (Z.of_nat i) currentStep);
    [|destruct (Z.eqb_spec (Z.of_nat i) currentStep)].
  all: split_and!; split; try lia; intros Hc; try done.
  all: try (apply (bool_decide_unpack _); by vm_compute).
  all: exfalso; revert Hc; apply (bool_decide_eq_false_1 _); by vm_compute.
Qed.

Lemma marker_fill_witness :
  (has_class "bg-primary" (step_marker 1 0) ↔ (Z.of_nat 0 < 1)%Z) ∧
  (has_class "text-primary" (step_marker 1 0) ↔ Z.of_nat 0 = 1%Z) ∧
  (has_class "bg-background" (step_marker 1 0) ↔ (1 ≤ Z.of_nat 0)%Z).
Proof.
  apply (marker_fill ["A"; "B"; "C"] 1%Z 0%nat (step_marker 1 0)).
  reflexivity.
Defined.
